(** * Verification of the strategy watch client and the request-metrics registry

    Shallow embedding of
    - [linkerd/strategy/src/lib.rs]: [Strategy::new], [Client::init],
      [Client::recover], [Client::broadcast], [Client::daemon], [Client::watch];
    - [linkerd/http-metrics/src/requests/mod.rs]: [Requests] and its shared
      registry, together with the registry's [retain_since] sweep. *)

From Stdlib Require Import List String Bool Arith Lia.
Import ListNotations.

(* ------------------------------------------------------------------ *)
(** ** [Option] combinators as Rust has them *)

(** [Option::and_then]. *)
Definition and_then {A B} (o : option A) (f : A -> option B) : option B :=
  match o with Some a => f a | None => None end.

(** [Option::unwrap_or] (and [unwrap_or_else] with a pure default). *)
Definition unwrap_or {A} (o : option A) (d : A) : A :=
  match o with Some a => a | None => d end.

(* ------------------------------------------------------------------ *)
(** ** Addresses *)

(** [std::net::SocketAddr], as an IP number and a port. *)
Record SocketAddr := mkSocketAddr { sa_ip : nat; sa_port : nat }.

(** A [HashMap<String, String>] of metric labels; it is only moved around. *)
Definition Labels := list (string * string).

(* ------------------------------------------------------------------ *)
(** ** The decoded messages of the destination API ([api::...]) *)

Module Api.

(** [api::TcpAddress]: an optional IP and a port. *)
Record TcpAddress := mkTcpAddress { ip : option nat; port : nat }.

(** [api::protocol_detection::Protocol]; the payloads are not inspected. *)
Inductive Protocol := ProtoClient | ProtoOpaque.

(** [api::ProtocolDetection { protocol }]. *)
Record ProtocolDetection := mkProtocolDetection { protocol : option Protocol }.

(** [api::WeightedAddr { addr, weight }]. *)
Record WeightedAddr := mkWeightedAddr { wa_addr : option TcpAddress; weight : nat }.

(** [api::target::Kind]: [Endpoint { addr }], [Concrete { authority,
    metric_labels, profile }], [Logical { metric_labels, inner }]. *)
Inductive Kind :=
| KEndpoint (addr : option WeightedAddr)
| KConcrete (authority : string) (metric_labels : Labels) (profile : option string)
| KLogical (metric_labels : Labels) (inner : option string).

(** [api::Target { kind }]. *)
Record Target := mkTarget { kind : option Kind }.

(** [api::StrategyResponse { detect, target }]. *)
Record StrategyResponse :=
  mkStrategyResponse { detect : option ProtocolDetection; target : option Target }.

End Api.

(* ------------------------------------------------------------------ *)
(** ** The strategy snapshot *)

Inductive Detect := Client | Opaque.

Inductive Target :=
| Endpoint (addr : SocketAddr)
| Concrete (authority : string) (metric_labels : Labels) (profile : unit)
| Logical.

Record Strategy := mkStrategy { addr : SocketAddr; detect : Detect; target : Target }.

Section StrategyNew.

(** [SocketAddr::try_from(api::TcpAddress)], provided by the API crate: any
    partial conversion. *)
Variable socket_addr_try_from : Api.TcpAddress -> option SocketAddr.

(** The [detect] part of [Strategy::new]. *)
Definition new_detect (d : option Api.ProtocolDetection) : Detect :=
  unwrap_or
    (and_then d (fun d =>
       option_map (fun p => match p with
                            | Api.ProtoClient => Client
                            | Api.ProtoOpaque => Opaque
                            end) (Api.protocol d)))
    Client.

(** The [target] part of [Strategy::new]. *)
Definition new_target (a : SocketAddr) (t : option Api.Target) : Target :=
  unwrap_or
    (and_then t (fun t =>
       and_then (Api.kind t) (fun k =>
         match k with
         | Api.KEndpoint ep =>
             and_then ep (fun wa =>
               option_map (fun addr => Endpoint addr)
                 (and_then (Api.wa_addr wa) socket_addr_try_from))
         | Api.KConcrete authority metric_labels _ =>
             Some (Concrete authority metric_labels tt)
         | Api.KLogical _ _ => Some Logical
         end)))
    (Endpoint a).

(** [Strategy::new(addr, StrategyResponse { detect, target })]. *)
Definition strategy_new (a : SocketAddr) (rsp : Api.StrategyResponse) : Strategy :=
  {| addr := a;
     detect := new_detect (Api.detect rsp);
     target := new_target a (Api.target rsp) |}.

End StrategyNew.

(* ------------------------------------------------------------------ *)
(** ** Statuses, errors, response streams and backoff schedules *)

(** Rust's [Result]. *)
Inductive result (A E : Type) := Ok (a : A) | Err (e : E).
Arguments Ok {A E} a.
Arguments Err {A E} e.

(** [grpc::Status]: a numeric code (0 is [grpc::Code::Ok]) and a message. *)
Record Status := mkStatus { code : nat; message : string }.

Definition code_ok : nat := 0.

(** [grpc::Status::new(grpc::Code::Ok, "server closed stream")]. *)
Definition server_closed : Status := mkStatus code_ok "server closed stream"%string.

(** [grpc::Status::new(grpc::Code::Ok, "Backoff exhausted")]. *)
Definition backoff_exhausted : Status := mkStatus code_ok "Backoff exhausted"%string.

(** [linkerd2_error::Error]: a boxed status, or a boxed error of the backoff
    stream (identified by a number). *)
Inductive Error := EStatus (s : Status) | EBackoff (e : nat).

(** One event of a [grpc::codec::Streaming<api::StrategyResponse>]: a response
    or a failure. The end of the list is the end of the stream. *)
Inductive StreamEv := Item (rsp : Api.StrategyResponse) | Fail (s : Status).

Definition Responses := list StreamEv.

(** [TryStreamExt::try_next] on the response stream. *)
Definition responses_try_next (rs : Responses)
  : result (option (Api.StrategyResponse * Responses)) Status :=
  match rs with
  | [] => Ok None
  | Item r :: rest => Ok (Some (r, rest))
  | Fail s :: _ => Err s
  end.

(** A retry schedule [R::Backoff]: a try-stream of ticks; an [Err] is an error
    of the schedule itself, the end of the list its exhaustion. *)
Definition Backoff := list (result unit nat).

(** [Init = (Strategy, Streaming<StrategyResponse>)]. *)
Definition Init := (Strategy * Responses)%type.

(* ------------------------------------------------------------------ *)
(** ** The effects of the client *)

(** What the client does that can be observed from outside: the [n]-th RPC
    call of the service, a consumed backoff tick, a value published on the
    watch channel, a spawned daemon task (with the stream it owns). *)
Inductive Action :=
| ACall (n : nat)
| ATick
| APublish (s : Strategy)
| ASpawn (rs : Responses).

(** The state threaded through the client: the number of RPC calls issued so
    far, the number of polls of a [select_biased!] so far, and the log. *)
Record World := mkWorld { calls : nat; polls : nat; log : list Action }.

Definition M (A : Type) := World -> A * World.

Definition ret {A} (a : A) : M A := fun w => (a, w).

Definition bind {A B} (m : M A) (k : A -> M B) : M B :=
  fun w => let (a, w') := m w in k a w'.

Notation "x <- m ;; k" := (bind m (fun x => k))
  (at level 61, m at next level, right associativity).
Notation "m ;; k" := (bind m (fun _ => k))
  (at level 61, right associativity).

Definition emit (x : Action) : M unit :=
  fun w => (tt, mkWorld (calls w) (polls w) (log w ++ [x])).

(** Issue an RPC call: returns its index. *)
Definition next_call : M nat :=
  fun w => (calls w, mkWorld (S (calls w)) (polls w) (log w ++ [ACall (calls w)])).

(** Poll the [tx.closed()] branch of a [select_biased!]: returns whether all
    receivers are dropped at this poll. *)
Definition poll_closed (closed : nat -> bool) : M bool :=
  fun w => (closed (polls w), mkWorld (calls w) (S (polls w)) (log w)).

(** [futures::select_biased! { () = tx.closed() => None, res = k => Some res }]:
    the [closed] branch is polled first; the other branch only runs when it
    is not ready. *)
Definition select_biased_closed {A} (closed : nat -> bool) (k : M A) : M (option A) :=
  p <- poll_closed closed ;;
  if p then ret None else (a <- k ;; ret (Some a)).

(** The same [select_biased!] when the other branch is a future that waits at
    several [.await]s with effects in between. The task is woken at each of
    them, and every wake polls the [tx.closed()] branch again before the
    future resumes. [k] performs those polls itself ([poll_closed]) and yields
    [None] as soon as one of them finds the receivers gone: the select then
    returns and drops the future. *)
Definition select_biased_closed_wakes {A} (closed : nat -> bool) (k : M (option A))
  : M (option A) :=
  p <- poll_closed closed ;;
  if p then ret None else k.

(* ------------------------------------------------------------------ *)
(** ** [Client]: [init], [recover], [broadcast], [daemon], [watch] *)

Section ClientOps.

Variable socket_addr_try_from : Api.TcpAddress -> option SocketAddr.

(** The address being watched ([addr]); the request built from it is the
    same for every call, so the service is modelled by its answers. *)
Variable a : SocketAddr.

(** [service.strategy(req)]: the answer to the [n]-th call, a response
    stream or a failing status. *)
Variable service : nat -> result Responses Status.

(** [R: Recover<grpc::Status>]: [recover.recover(status)] yields a schedule
    or rejects the status. *)
Variable policy : Status -> result Backoff Status.

(** Whether all receivers of the watch channel are dropped at a given poll. *)
Variable closed : nat -> bool.

(** [Client::init]: one call, then one [try_next] on its stream. *)
Definition init : M (result Init Status) :=
  n <- next_call ;;
  match service n with
  | Err s => ret (Err s)
  | Ok stream =>
      match responses_try_next stream with
      | Ok (Some (rsp, rest)) => ret (Ok (strategy_new socket_addr_try_from a rsp, rest))
      | Ok None => ret (Err server_closed)
      | Err s => ret (Err s)
      end
  end.

(** The [loop] of [Client::recover], over the schedule obtained first. *)
Fixpoint recover_loop (backoff : Backoff) : M (result Init Error) :=
  match backoff with
  | [] => ret (Err (EStatus backoff_exhausted))
  | Err e :: _ => ret (Err (EBackoff e))
  | Ok _ :: backoff' =>
      emit ATick ;;
      r <- init ;;
      match r with
      | Ok rsp => ret (Ok rsp)
      | Err s =>
          (* Reuse the existing backoff instead of resetting. *)
          match policy s with
          | Err e => ret (Err (EStatus e))
          | Ok _ => recover_loop backoff'
          end
      end
  end.

(** [Client::recover]. *)
Definition recover (s : Status) : M (result Init Error) :=
  match policy s with
  | Err e => ret (Err (EStatus e))
  | Ok backoff => recover_loop backoff
  end.

(** [Client::init] as the daemon's [select_biased!] polls it (lib.rs 113):
    the call is issued, and the task waits for its answer and the first
    response of its stream, with no effect in between. At that wake the
    [tx.closed()] branch is polled first; when the receivers are gone the
    answer, ready or not, is dropped ([None]). *)
Definition init_raced : M (option (result Init Status)) :=
  n <- next_call ;;
  gone <- poll_closed closed ;;
  if gone then ret None else
  match service n with
  | Err s => ret (Some (Err s))
  | Ok stream =>
      match responses_try_next stream with
      | Ok (Some (rsp, rest)) => ret (Some (Ok (strategy_new socket_addr_try_from a rsp, rest)))
      | Ok None => ret (Some (Err server_closed))
      | Err s => ret (Some (Err s))
      end
  end.

(** The [loop] of [Client::recover] as the daemon's [select_biased!] polls
    it: each [backoff.try_next().await] is a wake where [tx.closed()] is
    polled first, then the loop goes on as in [recover_loop]. *)
Fixpoint recover_loop_raced (backoff : Backoff) : M (option (result Init Error)) :=
  gone <- poll_closed closed ;;
  if gone then ret None else
  match backoff with
  | [] => ret (Some (Err (EStatus backoff_exhausted)))
  | Err e :: _ => ret (Some (Err (EBackoff e)))
  | Ok _ :: backoff' =>
      emit ATick ;;
      r <- init_raced ;;
      match r with
      | None => ret None
      | Some (Ok rsp) => ret (Some (Ok rsp))
      | Some (Err s) =>
          (* Reuse the existing backoff instead of resetting. *)
          match policy s with
          | Err e => ret (Some (Err (EStatus e)))
          | Ok _ => recover_loop_raced backoff'
          end
      end
  end.

(** The [recover] future polled by the daemon's [select_biased!]; the policy
    is consulted before the first [.await]. *)
Definition recover_raced (s : Status) : M (option (result Init Error)) :=
  match policy s with
  | Err e => ret (Some (Err (EStatus e)))
  | Ok backoff => recover_loop_raced backoff
  end.

(** [tx.broadcast(strategy)]; its result is ignored. *)
Definition publish (s : Strategy) : M unit := emit (APublish s).

(** [Client::broadcast]: each iteration is one [select_biased!]. *)
Fixpoint broadcast (responses : Responses) : M (result unit Status) :=
  sel <- select_biased_closed closed (ret (responses_try_next responses)) ;;
  match sel with
  | None => ret (Ok tt)
  | Some (Err s) => ret (Err s)
  | Some (Ok None) => ret (Err server_closed)
  | Some (Ok (Some (rsp, _))) =>
      match responses with
      | _ :: rest => publish (strategy_new socket_addr_try_from a rsp) ;; broadcast rest
      | [] => ret (Err server_closed) (* unreachable: [try_next] gave an item *)
      end
  end.

(** How the daemon task ends (it returns [()] in every case). *)
Inductive DaemonExit :=
| ExitClosed            (* all receivers dropped *)
| ExitFailed (e : Error) (* recovery failed: "Watch failed" *)
| ExitFuel.             (* still running after the allowed iterations *)

(** [Client::daemon], unrolled [fuel] times. After a stream failure its
    [select_biased!] races [tx.closed()] against the whole [recover] future:
    [tx.closed()] is polled when the select starts and at every wake of the
    recovery ([recover_raced]), and the recovery is dropped as soon as one
    of those polls finds the receivers gone. *)
Fixpoint daemon (fuel : nat) (responses : Responses) : M DaemonExit :=
  match fuel with
  | O => ret ExitFuel
  | S fuel' =>
      r <- broadcast responses ;;
      match r with
      | Ok _ => ret ExitClosed
      | Err s =>
          sel <- select_biased_closed_wakes closed (recover_raced s) ;;
          match sel with
          | None => ret ExitClosed
          | Some (Err e) => ret (ExitFailed e)
          | Some (Ok (strategy, stream)) =>
              (* Broadcast the first update from the stream *)
              publish strategy ;; daemon fuel' stream
          end
      end
  end.

(** [watch::Receiver<Strategy>], by the value it currently holds. *)
Record Receiver := mkReceiver { rx_value : Strategy }.

(** [Client::watch]: [watch::channel(strategy)] seeds the channel with the
    first snapshot; [tokio::spawn(Self::daemon(..))] is logged as [ASpawn]. *)
Definition watch : M (result Receiver Error) :=
  r <- init ;;
  rsp <- match r with
         | Ok rsp => ret (Ok rsp)
         | Err s => recover s
         end ;;
  match rsp with
  | Err e => ret (Err e)
  | Ok (strategy, stream) =>
      emit (ASpawn stream) ;; ret (Ok (mkReceiver strategy))
  end.

End ClientOps.

(* ------------------------------------------------------------------ *)
(** ** [http-metrics] request metrics and their registry *)

Module RequestMetrics.

Section Registry.

(** The target type [T] and the classification type [C]. *)
Variable T C : Type.

(** [Instant], as a number of ticks of a monotonic clock. *)
Definition Instant := nat.

(** [Histogram<latency::Ms>], by its bucket counts. *)
Definition Histogram := list nat.

(** [ClassMetrics { total }]. *)
Record ClassMetrics := mkClassMetrics { class_total : nat }.

(** [StatusMetrics<C> { latency, by_class }]; an [IndexMap] is an
  association list in insertion order. *)
Record StatusMetrics :=
mkStatusMetrics { latency : Histogram; by_class : list (C * ClassMetrics) }.

(** [Metrics<C> { last_update, total, by_status }]. *)
Record Metrics :=
mkMetrics { last_update : Instant;
            total : nat;
            by_status : list (option nat * StatusMetrics) }.

(** [Metrics::default()] at time [now]. *)
Definition metrics_default (now : Instant) : Metrics := mkMetrics now 0 [].

(** An [Arc<Mutex<Metrics<C>>>] held by the registry: the record and the
  number of handles to it besides the registry's own, so that
  [Arc::strong_count] is [S ext_refs]. *)
Record Arc := mkArc { ext_refs : nat; inner : Metrics }.

Definition strong_count (h : Arc) : nat := S (ext_refs h).

(** Modelled from the spec: [Registry<T, Metrics<C>>] of the parent module
  ([super::Registry]), whose [by_target] is an [IndexMap] from targets to
  shared handles. *)
Record Registry := mkRegistry { by_target : list (T * Arc) }.

Definition registry_default : Registry := mkRegistry [].

(** Modelled from the spec: whether [Registry::retain_since(cutoff)] keeps an
  entry. An entry is evicted when [last_update < cutoff] and the
  registry's reference is the only live one, i.e. when the strong count is
  not above the registry's own. *)
Definition retain_entry (cutoff : Instant) (e : T * Arc) : bool :=
Nat.ltb 1 (strong_count (snd e)) || Nat.leb cutoff (last_update (inner (snd e))).

(** Modelled from the spec: [Registry::retain_since(cutoff)], an in-place,
  order-preserving sweep over every entry. *)
Definition retain_since (cutoff : Instant) (r : Registry) : Registry :=
mkRegistry (filter (retain_entry cutoff) (by_target r)).

End Registry.

Arguments mkArc {C} ext_refs inner.
Arguments mkMetrics {C} last_update total by_status.
Arguments metrics_default {C} now.
Arguments mkRegistry {T C} by_target.
Arguments registry_default {T C}.
Arguments by_target {T C} r.
Arguments retain_since {T C} cutoff r.
Arguments retain_entry {T C} cutoff e.
Arguments strong_count {C} h.
Arguments inner {C} _.
Arguments ext_refs {C} _.
Arguments last_update {C} _.
Arguments total {C} _.
Arguments by_status {C} _.

Section Shared.

Variable T C : Type.

(** Addresses of shared allocations. *)
Definition Loc := nat.

(** The allocation behind an [Arc<RwLock<Registry<T, Metrics<C>>>>]: its
    strong count and the registry the lock guards. *)
Record ArcInner := mkArcInner { strong : nat; data : Registry T C }.

(** The store of such allocations. *)
Definition Heap := Loc -> ArcInner.

Definition heap_update (h : Heap) (l : Loc) (x : ArcInner) : Heap :=
fun l' => if Nat.eqb l' l then x else h l'.

(** [Requests<T, C>(SharedRegistry<T, C>)]: a pointer to the shared registry. *)
Record Requests := mkRequests { requests_reg : Loc }.

(** [Report<T, Metrics<C>>] built by [Report::new(retain_idle, registry)]. *)
Record Report := mkReport { retain_idle : nat; report_reg : Loc }.

(** [layer::Layer<T, L>] built by [layer::Layer::new(registry)]. *)
Record Layer := mkLayer { layer_reg : Loc }.

(** [impl Clone for Requests]: [Requests(self.0.clone())]. [Arc::clone]
    copies the pointer and increments the allocation's strong count. *)
Definition requests_clone (r : Requests) (h : Heap) : Requests * Heap :=
let l := requests_reg r in
(mkRequests l, heap_update h l (mkArcInner (S (strong (h l))) (data (h l)))).

(** [Requests::into_report]: [self.0] is moved into the report. *)
Definition into_report (r : Requests) (retain_idle : nat) : Report :=
mkReport retain_idle (requests_reg r).

(** [Requests::into_layer]: [self.0] is moved into the layer. *)
Definition into_layer (r : Requests) : Layer := mkLayer (requests_reg r).

(** The registry a handle sees ([self.0.read()]). *)
Definition requests_read (h : Heap) (r : Requests) : Registry T C := data (h (requests_reg r)).
Definition report_read (h : Heap) (r : Report) : Registry T C := data (h (report_reg r)).
Definition layer_read (h : Heap) (l : Layer) : Registry T C := data (h (layer_reg l)).

(** A mutation through a handle ([self.0.write()] then [f]). *)
Definition requests_write (r : Requests) (f : Registry T C -> Registry T C) (h : Heap) : Heap :=
let l := requests_reg r in
heap_update h l (mkArcInner (strong (h l)) (f (data (h l)))).

(** A client of [Requests] handles: each step names the handle it uses by
    its index among the handles made so far (past the end: the first one).
    [OClone i] clones handle [i] and keeps the clone; [OWrite i f] mutates
    the registry through handle [i]. *)
Inductive HandleOp :=
| OClone (i : nat)
| OWrite (i : nat) (f : Registry T C -> Registry T C).

Fixpoint run_handles (ops : list HandleOp) (hs : list Requests) (r0 : Requests) (h : Heap)
  : list Requests * Heap :=
match ops with
| [] => (hs, h)
| OClone i :: ops' =>
    let (r', h') := requests_clone (nth i hs r0) h in run_handles ops' (hs ++ [r']) r0 h'
| OWrite i f :: ops' => run_handles ops' hs r0 (requests_write (nth i hs r0) f h)
end.

(** The mutations of a client, in order, and the number of its clones. *)
Definition op_writes (ops : list HandleOp) : list (Registry T C -> Registry T C) :=
flat_map (fun op => match op with OWrite _ f => [f] | OClone _ => [] end) ops.

Definition op_clones (ops : list HandleOp) : nat :=
List.length (filter (fun op => match op with OClone _ => true | OWrite _ _ => false end) ops).

End Shared.

Arguments OClone {T C} i.
Arguments OWrite {T C} i f.

End RequestMetrics.

(* ------------------------------------------------------------------ *)
(** ** Observations on logs and policies *)

(** The RPC-level actions of a recovery: calls and consumed ticks. *)
Definition is_rpc_action (x : Action) : bool :=
  match x with ACall _ | ATick => true | _ => false end.

(** The values published on the channel, in order. *)
Definition published (l : list Action) : list Strategy :=
  flat_map (fun x => match x with APublish s => [s] | _ => [] end) l.

(** The daemons spawned, by the stream each owns. *)
Definition spawns (l : list Action) : list Responses :=
  flat_map (fun x => match x with ASpawn rs => [rs] | _ => [] end) l.

(** How a response stream ends after its items: a graceful close ([None]) or
    a failure with a status. *)
Definition stream_end (ending : option Status) : Responses :=
  match ending with None => [] | Some st => [Fail st] end.

(** The status [broadcast] returns for that ending. *)
Definition end_status (ending : option Status) : Status :=
  match ending with None => server_closed | Some st => st end.

(** Two policies give the same verdicts: both accept (with any schedules) or
    both reject with the same error. *)
Definition same_verdict (p1 p2 : Status -> result Backoff Status) : Prop :=
  forall s, match p1 s, p2 s with
            | Ok _, Ok _ => True
            | Err e1, Err e2 => e1 = e2
            | _, _ => False
            end.

(* ------------------------------------------------------------------ *)
(** ** Concrete inputs used by the examples *)

Module Scenarios.

(** A conversion that accepts addresses with an IP. *)
Definition conv_ip (t : Api.TcpAddress) : option SocketAddr :=
  option_map (fun ip => mkSocketAddr ip (Api.port t)) (Api.ip t).

Definition req_addr : SocketAddr := mkSocketAddr 10 80.

(** [grpc::Code::Unavailable] (14). *)
Definition unavailable : Status := mkStatus 14 "connection refused"%string.

(** [grpc::Code::InvalidArgument] (3). *)
Definition invalid_argument : Status := mkStatus 3 "bad request"%string.

Definition rsp_of (ip : nat) : Api.StrategyResponse :=
  Api.mkStrategyResponse None
    (Some (Api.mkTarget (Some (Api.KEndpoint
       (Some (Api.mkWeightedAddr (Some (Api.mkTcpAddress (Some ip) 80)) 1)))))).

(** A control plane that is down. *)
Definition service_down (_ : nat) : result Responses Status := Err unavailable.

(** A control plane whose every call streams one response and closes. *)
Definition service_up (_ : nat) : result Responses Status := Ok [Item (rsp_of 3)].

(** A stream that relays two responses, then fails. *)
Definition stream_flaky : Responses := [Item (rsp_of 1); Item (rsp_of 2); Fail unavailable].

(** Receivers that are all alive, or all dropped, at every poll. *)
Definition never_closed (_ : nat) : bool := false.
Definition always_closed (_ : nat) : bool := true.

(** A policy that always grants two ticks. *)
Definition policy_two (_ : Status) : result Backoff Status := Ok [Ok tt; Ok tt].

(** A policy that grants no tick at all. *)
Definition policy_none (_ : Status) : result Backoff Status := Ok [].

Definition world0 : World := mkWorld 0 0 [].

End Scenarios.

(* ================================================================== *)
(** * Properties *)

(* ------------------------------------------------------------------ *)
(** ** [Strategy::new] *)

Module StrategyNewFacts.

Import Scenarios.

Example new_empty :
  strategy_new conv_ip req_addr (Api.mkStrategyResponse None None)
  = mkStrategy req_addr Client (Endpoint req_addr).
Proof. reflexivity. Qed.

Example new_endpoint_no_ip :
  strategy_new conv_ip req_addr
    (Api.mkStrategyResponse (Some (Api.mkProtocolDetection (Some Api.ProtoOpaque)))
       (Some (Api.mkTarget (Some (Api.KEndpoint
          (Some (Api.mkWeightedAddr (Some (Api.mkTcpAddress None 80)) 1)))))))
  = mkStrategy req_addr Opaque (Endpoint req_addr).
Proof. reflexivity. Qed.

Example new_endpoint_ip :
  target (strategy_new conv_ip req_addr
    (Api.mkStrategyResponse None
       (Some (Api.mkTarget (Some (Api.KEndpoint
          (Some (Api.mkWeightedAddr (Some (Api.mkTcpAddress (Some 7) 80)) 1))))))))
  = Endpoint (mkSocketAddr 7 80).
Proof. reflexivity. Qed.

(** Claim C7: an absent target, a target without a kind, an [Endpoint] kind
    without an address, without a TCP address, or whose TCP address does not
    convert, all give [Endpoint { addr }] with the request's address; an
    [Endpoint] kind whose address converts gives that address; a [Concrete]
    kind gives [Concrete] with the response's authority and metric labels;
    a [Logical] kind gives [Logical {}]. *)
Theorem strategy_new_target_cases :
  forall (conv : Api.TcpAddress -> option SocketAddr) (a : SocketAddr)
         (d : option Api.ProtocolDetection),
    target (strategy_new conv a (Api.mkStrategyResponse d None)) = Endpoint a /\
    target (strategy_new conv a (Api.mkStrategyResponse d (Some (Api.mkTarget None))))
      = Endpoint a /\
    target (strategy_new conv a
      (Api.mkStrategyResponse d (Some (Api.mkTarget (Some (Api.KEndpoint None))))))
      = Endpoint a /\
    (forall w, target (strategy_new conv a
      (Api.mkStrategyResponse d (Some (Api.mkTarget (Some (Api.KEndpoint
         (Some (Api.mkWeightedAddr None w))))))))
      = Endpoint a) /\
    (forall tcp w, target (strategy_new conv a
      (Api.mkStrategyResponse d (Some (Api.mkTarget (Some (Api.KEndpoint
         (Some (Api.mkWeightedAddr (Some tcp) w))))))))
      = match conv tcp with Some sa => Endpoint sa | None => Endpoint a end) /\
    (forall authority labels profile, target (strategy_new conv a
      (Api.mkStrategyResponse d
         (Some (Api.mkTarget (Some (Api.KConcrete authority labels profile))))))
      = Concrete authority labels tt) /\
    (forall labels inner, target (strategy_new conv a
      (Api.mkStrategyResponse d
         (Some (Api.mkTarget (Some (Api.KLogical labels inner))))))
      = Logical).
Proof.
  intros conv a d; cbn.
  repeat split; intros; cbn; try reflexivity.
  unfold new_target; cbn; destruct (conv tcp); reflexivity.
Qed.

(** Claim C8: [detect] is [Client] when the detection field is absent, when
    it carries no protocol, and when the protocol is [Client]; it is
    [Opaque] exactly when the protocol is the [Opaque] variant. *)
Theorem strategy_new_detect_cases :
  forall (conv : Api.TcpAddress -> option SocketAddr) (a : SocketAddr),
    (forall t, detect (strategy_new conv a (Api.mkStrategyResponse None t)) = Client) /\
    (forall t, detect (strategy_new conv a
       (Api.mkStrategyResponse (Some (Api.mkProtocolDetection None)) t)) = Client) /\
    (forall t, detect (strategy_new conv a
       (Api.mkStrategyResponse (Some (Api.mkProtocolDetection (Some Api.ProtoClient))) t))
       = Client) /\
    (forall rsp, detect (strategy_new conv a rsp) = Opaque <->
       Api.detect rsp = Some (Api.mkProtocolDetection (Some Api.ProtoOpaque))).
Proof.
  intros conv a.
  split; [|split; [|split]]; try reflexivity.
  intros [[[[[|]|]]|] t]; cbn; split; intros H;
    try discriminate; try reflexivity.
Qed.

(** Claim C9: [Strategy::new] is a total function whose [addr] is the
    request's address, whatever the response carries. *)
Theorem strategy_new_addr :
  forall (conv : Api.TcpAddress -> option SocketAddr) (a : SocketAddr)
         (rsp : Api.StrategyResponse),
    addr (strategy_new conv a rsp) = a.
Proof. reflexivity. Qed.

End StrategyNewFacts.

(* ------------------------------------------------------------------ *)
(** ** [Client::init] and [Client::recover] *)

Module ClientFacts.

Section Env.
Variable conv : Api.TcpAddress -> option SocketAddr.
Variable a : SocketAddr.
Variable service : nat -> result Responses Status.

(** [init] issues exactly one call and touches nothing else. *)
Lemma init_world (w : World) :
  snd (init conv a service w) = mkWorld (S (calls w)) (polls w) (log w ++ [ACall (calls w)]).
Proof.
  unfold init, bind, next_call; cbn.
  destruct (service (calls w)) as [[|[r|s] rest]|s]; reflexivity.
Qed.

(** A successful [init] read the first response of the stream of its call. *)
Lemma init_ok (w : World) (s : Strategy) (rs : Responses) :
  fst (init conv a service w) = Ok (s, rs) ->
  exists rsp, service (calls w) = Ok (Item rsp :: rs) /\ s = strategy_new conv a rsp.
Proof.
  unfold init, bind, next_call; cbn.
  destruct (service (calls w)) as [[|[r|st] rest]|st]; cbn; try discriminate.
  intros H; inversion H; subst; eauto.
Qed.

(** One iteration of the recovery loop: a tick, then an [init]. *)
Lemma recover_loop_tick (policy : Status -> result Backoff Status) (u : unit)
      (b : Backoff) (w : World) :
  recover_loop conv a service policy (Ok u :: b) w =
  match init conv a service (mkWorld (calls w) (polls w) (log w ++ [ATick])) with
  | (Ok rsp, w2) => (Ok rsp, w2)
  | (Err s, w2) =>
      match policy s with
      | Err e => (Err (EStatus e), w2)
      | Ok _ => recover_loop conv a service policy b w2
      end
  end.
Proof.
  cbn [recover_loop]; unfold bind at 1, emit; cbn -[init recover_loop].
  unfold bind; destruct (init _ _ _ _) as [[rsp|s] w2]; [reflexivity|].
  destruct (policy s); reflexivity.
Qed.

(** A recovery only issues calls and consumes ticks. *)
Lemma recover_loop_world (policy : Status -> result Backoff Status) (b : Backoff) (w : World) :
  exists L, log (snd (recover_loop conv a service policy b w)) = log w ++ L
         /\ polls (snd (recover_loop conv a service policy b w)) = polls w
         /\ forallb is_rpc_action L = true.
Proof.
  revert w; induction b as [|[u|e] b IH]; intros w.
  - exists []; cbn; rewrite app_nil_r; auto.
  - rewrite recover_loop_tick.
    set (w1 := mkWorld (calls w) (polls w) (log w ++ [ATick])).
    pose proof (init_world w1) as Hw.
    destruct (init conv a service w1) as [r w2] eqn:Ei; cbn in Hw; subst w2.
    destruct r as [rsp|st].
    + exists [ATick; ACall (calls w)]; cbn; rewrite <- app_assoc; auto.
    + destruct (policy st) as [b'|e].
      * destruct (IH (mkWorld (S (calls w1)) (polls w1) (log w1 ++ [ACall (calls w1)])))
          as [L [HL [HP HrL]]].
        exists ([ATick; ACall (calls w)] ++ L); cbn in *.
        rewrite HL, HP, <- !app_assoc; cbn; auto.
      * exists [ATick; ACall (calls w)]; cbn; rewrite <- app_assoc; auto.
  - exists []; cbn; rewrite app_nil_r; auto.
Qed.

Lemma recover_world (policy : Status -> result Backoff Status) (st : Status) (w : World) :
  exists L, log (snd (recover conv a service policy st w)) = log w ++ L
         /\ polls (snd (recover conv a service policy st w)) = polls w
         /\ forallb is_rpc_action L = true.
Proof.
  unfold recover; destruct (policy st) as [b|e].
  - apply recover_loop_world.
  - exists []; cbn; rewrite app_nil_r; auto.
Qed.

(** A successful recovery ends in a successful [init]. *)
Lemma recover_loop_ok (policy : Status -> result Backoff Status) (b : Backoff)
      (w : World) (s : Strategy) (rs : Responses) :
  fst (recover_loop conv a service policy b w) = Ok (s, rs) ->
  exists w0, fst (init conv a service w0) = Ok (s, rs).
Proof.
  revert w; induction b as [|[u|e] b IH]; intros w; try (cbn; discriminate).
  rewrite recover_loop_tick.
  set (w1 := mkWorld (calls w) (polls w) (log w ++ [ATick])).
  destruct (init conv a service w1) as [r w2] eqn:Ei.
  destruct r as [rsp|st].
  - intros H; injection H as ->; exists w1; rewrite Ei; reflexivity.
  - destruct (policy st); cbn; [apply IH | discriminate].
Qed.

(** A failed recovery fails with a rejection of the policy, an error of
    the schedule, or the synthetic [Backoff exhausted] status. *)
Lemma recover_loop_err (policy : Status -> result Backoff Status) (b : Backoff)
      (w : World) (e : Error) :
  fst (recover_loop conv a service policy b w) = Err e ->
  (exists s e', policy s = Err e' /\ e = EStatus e') \/
  (exists n, e = EBackoff n) \/ e = EStatus backoff_exhausted.
Proof.
  revert w; induction b as [|[u|n] b IH]; intros w.
  - cbn; intros H; inversion H; auto.
  - rewrite recover_loop_tick.
    destruct (init conv a service _) as [[rsp|st] w2]; cbn; try discriminate.
    destruct (policy st) eqn:Ep; cbn; [apply IH|].
    intros H; inversion H; subst; left; eauto.
  - cbn; intros H; inversion H; eauto.
Qed.

End Env.

(** With every call failing and every failure accepted, the loop consumes
    the whole schedule, one tick per call, then reports exhaustion. *)
Lemma recover_loop_exhausts conv a service policy (n : nat) (w : World) :
  (forall k, exists s, service k = Err s) ->
  (forall s, exists b', policy s = Ok b') ->
  recover_loop conv a service policy (repeat (Ok tt) n) w =
  (Err (EStatus backoff_exhausted),
   mkWorld (calls w + n) (polls w)
     (log w ++ flat_map (fun k => [ATick; ACall k]) (seq (calls w) n))).
Proof.
  intros Hsvc Hpol; revert w; induction n as [|n IH]; intros w.
  - cbn; rewrite Nat.add_0_r, app_nil_r; destruct w; reflexivity.
  - cbn [repeat]; rewrite recover_loop_tick.
    unfold init, bind, next_call; cbn.
    destruct (Hsvc (calls w)) as [s Hs]; rewrite Hs; cbn.
    destruct (Hpol s) as [b' Hb']; rewrite Hb'.
    rewrite IH; cbn.
    rewrite Nat.add_succ_r, <- !app_assoc; reflexivity.
Qed.

(** The loop depends on the policy only through its verdicts. *)
Lemma recover_loop_verdict conv a service p1 p2 (b : Backoff) (w : World) :
  same_verdict p1 p2 ->
  recover_loop conv a service p1 b w = recover_loop conv a service p2 b w.
Proof.
  intros Hv; revert w; induction b as [|[u|e] b IH]; intros w; try reflexivity.
  rewrite !recover_loop_tick.
  destruct (init conv a service _) as [[rsp|s] w2]; [reflexivity|].
  specialize (Hv s); destruct (p1 s), (p2 s); try contradiction.
  - apply IH.
  - subst; reflexivity.
Qed.

(** Claim C2: recovery keeps the schedule the policy gave for the original
    failure. When every reconnect attempt fails and the policy accepts every
    failure (whatever schedules it returns for them), a schedule of [n]
    ticks yields exactly [n] ticks, each followed by one call, and then the
    [Backoff exhausted] error; and replacing the policy by one that returns
    the same schedule for the original failure and the same verdicts
    elsewhere (with other schedules) changes nothing, so the schedules of
    the later consultations are never used. *)
Theorem recover_reuses_schedule conv a service policy (st : Status) (n : nat) (w : World) :
  policy st = Ok (repeat (Ok tt) n) ->
  (forall s, exists b', policy s = Ok b') ->
  (forall k, exists s, service k = Err s) ->
  recover conv a service policy st w =
    (Err (EStatus backoff_exhausted),
     mkWorld (calls w + n) (polls w)
       (log w ++ flat_map (fun k => [ATick; ACall k]) (seq (calls w) n))) /\
  (forall policy', policy' st = policy st -> same_verdict policy policy' ->
     recover conv a service policy' st w = recover conv a service policy st w).
Proof.
  intros Hst Hpol Hsvc; split.
  - unfold recover; rewrite Hst; apply recover_loop_exhausts; assumption.
  - intros policy' Hst' Hv; unfold recover; rewrite Hst', Hst.
    symmetry; apply recover_loop_verdict; exact Hv.
Qed.

(** The scenario of the claim: a policy granting two ticks on every
    consultation, a control plane that is down; two failed reconnects use
    the two ticks of the first schedule and recovery stops. *)
Lemma recover_reuses_schedule_witness :
  recover Scenarios.conv_ip Scenarios.req_addr Scenarios.service_down
    Scenarios.policy_two Scenarios.unavailable Scenarios.world0 =
  (Err (EStatus backoff_exhausted),
   mkWorld 2 0 [ATick; ACall 0; ATick; ACall 1]).
Proof.
  refine (proj1 (recover_reuses_schedule Scenarios.conv_ip Scenarios.req_addr
           Scenarios.service_down Scenarios.policy_two Scenarios.unavailable 2
           Scenarios.world0 _ _ _)).
  - reflexivity.
  - intros s; eexists; reflexivity.
  - intros k; eexists; reflexivity.
Defined.

End ClientFacts.

(* ------------------------------------------------------------------ *)
(** ** [Client::broadcast], [Client::daemon] and [Client::watch] *)

Module DaemonFacts.

Lemma rpc_actions_quiet (L : list Action) :
  forallb is_rpc_action L = true -> published L = [] /\ spawns L = [].
Proof.
  induction L as [|[n| |s|rs] L IH]; cbn; try discriminate; auto.
Qed.

(** [broadcast] issues no call. *)
Lemma broadcast_calls conv a closed (rs : Responses) (w : World) :
  calls (snd (broadcast conv a closed rs w)) = calls w.
Proof.
  revert w; induction rs as [|[r|s] rs IH]; intros w; cbn [broadcast];
    unfold bind, select_biased_closed, poll_closed, publish, emit, ret; cbn;
    destruct (closed (polls w)); cbn; auto.
  rewrite IH; reflexivity.
Qed.

(** With the receivers alive, [broadcast] publishes every item of the
    stream, in order, and returns the status of its ending. *)
Lemma broadcast_relays conv a closed (items : list Api.StrategyResponse)
      (ending : option Status) (w : World) :
  (forall p, closed p = false) ->
  broadcast conv a closed (map Item items ++ stream_end ending) w =
  (Err (end_status ending),
   mkWorld (calls w) (polls w + List.length items + 1)
     (log w ++ map (fun r => APublish (strategy_new conv a r)) items)).
Proof.
  intros Hc; revert w; induction items as [|r items IH]; intros w.
  - destruct ending as [st|]; cbn [broadcast map app stream_end];
      unfold bind, select_biased_closed, poll_closed, ret; cbn; rewrite Hc; cbn;
      rewrite Nat.add_0_r, Nat.add_1_r, app_nil_r; destruct w; reflexivity.
  - cbn [broadcast map app];
      unfold bind at 1, select_biased_closed, poll_closed; cbn; rewrite Hc; cbn.
    unfold bind, ret, publish, emit; cbn.
    fold (bind (A:=unit) (B:=result unit Status)).
    rewrite IH; cbn; rewrite <- app_assoc; do 2 f_equal; lia.
Qed.

Lemma recover_ok conv a service policy (st : Status) (w : World) (s : Strategy) (rs : Responses) :
  fst (recover conv a service policy st w) = Ok (s, rs) ->
  exists w0, fst (init conv a service w0) = Ok (s, rs).
Proof.
  unfold recover; destruct (policy st); [apply ClientFacts.recover_loop_ok|discriminate].
Qed.

Lemma recover_err conv a service policy (st : Status) (w : World) (e : Error) :
  fst (recover conv a service policy st w) = Err e ->
  (exists s e', policy s = Err e' /\ e = EStatus e') \/
  (exists n, e = EBackoff n) \/ e = EStatus backoff_exhausted.
Proof.
  unfold recover; destruct (policy st) eqn:Ep.
  - apply ClientFacts.recover_loop_err.
  - cbn; intros H; inversion H; subst; left; eauto.
Qed.

(** The daemon's [select_biased!] over the recovery future. *)
Lemma select_wakes_unfold {A} closed (k : M (option A)) (w : World) :
  select_biased_closed_wakes closed k w =
  if closed (polls w) then (None, mkWorld (calls w) (S (polls w)) (log w))
  else k (mkWorld (calls w) (S (polls w)) (log w)).
Proof.
  unfold select_biased_closed_wakes, bind at 1, poll_closed; cbn.
  destruct (closed (polls w)); reflexivity.
Qed.

(** One iteration of the daemon loop. *)
Lemma daemon_step conv a service policy closed (fuel : nat) (rs : Responses) (w : World) :
  daemon conv a service policy closed (S fuel) rs w =
  match broadcast conv a closed rs w with
  | (Ok _, w1) => (ExitClosed, w1)
  | (Err s, w1) =>
      match select_biased_closed_wakes closed (recover_raced conv a service policy closed s) w1 with
      | (None, w2) => (ExitClosed, w2)
      | (Some (Err e), w2) => (ExitFailed e, w2)
      | (Some (Ok (strategy, stream)), w2) =>
          daemon conv a service policy closed fuel stream (snd (publish strategy w2))
      end
  end.
Proof.
  cbn [daemon]; unfold bind at 1.
  destruct (broadcast conv a closed rs w) as [[u|s] w1]; [reflexivity|].
  unfold bind at 1.
  destruct (select_biased_closed_wakes closed _ w1) as [[[[strategy stream]|e]|] w2];
    reflexivity.
Qed.

(** [broadcast] on a stream with no item left. *)
Lemma broadcast_end conv a closed (ending : option Status) (w : World) :
  broadcast conv a closed (stream_end ending) w =
  (if closed (polls w) then Ok tt else Err (end_status ending),
   mkWorld (calls w) (S (polls w)) (log w)).
Proof.
  destruct ending; cbn [broadcast stream_end];
    unfold bind, select_biased_closed, poll_closed, ret; cbn;
    destruct (closed (polls w)); reflexivity.
Qed.

(** The result of [init] depends on the world only through the call count. *)
Lemma init_calls conv a service (w1 w2 : World) :
  calls w1 = calls w2 -> fst (init conv a service w1) = fst (init conv a service w2).
Proof.
  intros E; unfold init, bind, next_call; cbn; rewrite E.
  destruct (service (calls w2)) as [[|[r|s] rest]|s]; reflexivity.
Qed.

(** [init] under the daemon's select: the call, then one wake. *)
Lemma init_raced_unfold conv a service closed (w : World) :
  init_raced conv a service closed w =
  (if closed (polls w) then None else Some (fst (init conv a service w)),
   mkWorld (S (calls w)) (S (polls w)) (log w ++ [ACall (calls w)])).
Proof.
  unfold init_raced, init, bind, next_call, poll_closed; cbn.
  destruct (closed (polls w)); [reflexivity|].
  destruct (service (calls w)) as [[|[r|s] rest]|s]; reflexivity.
Qed.

(** One iteration of the recovery loop under the daemon's select. *)
Lemma recover_loop_raced_unfold conv a service policy closed (b : Backoff) (w : World) :
  recover_loop_raced conv a service policy closed b w =
  if closed (polls w) then (None, mkWorld (calls w) (S (polls w)) (log w)) else
  match b with
  | [] => (Some (Err (EStatus backoff_exhausted)), mkWorld (calls w) (S (polls w)) (log w))
  | Err e :: _ => (Some (Err (EBackoff e)), mkWorld (calls w) (S (polls w)) (log w))
  | Ok _ :: b' =>
      match init_raced conv a service closed (mkWorld (calls w) (S (polls w)) (log w ++ [ATick])) with
      | (None, w2) => (None, w2)
      | (Some (Ok rsp), w2) => (Some (Ok rsp), w2)
      | (Some (Err s), w2) =>
          match policy s with
          | Err e => (Some (Err (EStatus e)), w2)
          | Ok _ => recover_loop_raced conv a service policy closed b' w2
          end
      end
  end.
Proof.
  destruct b as [|[u|e] b]; cbn [recover_loop_raced]; unfold bind at 1, poll_closed;
    cbn -[init_raced recover_loop_raced]; destruct (closed (polls w)); try reflexivity.
  unfold bind, emit; cbn -[init_raced recover_loop_raced].
  destruct (init_raced _ _ _ _ _) as [[[rsp|s]|] w2]; try reflexivity.
  destruct (policy s); reflexivity.
Qed.

(** With the receivers alive at every wake, the recovery under the daemon's
    select does what [recover_loop] does, with one more poll per call and
    per tick, and one for the last read of an exhausted or failing schedule. *)
Lemma recover_loop_raced_open conv a service policy closed (b : Backoff)
      (c p p' : nat) (l : list Action) :
  (forall q, p <= q -> closed q = false) ->
  exists L k,
    log (snd (recover_loop conv a service policy b (mkWorld c p' l))) = l ++ L /\
    (k = List.length L \/ k = S (List.length L)) /\
    (forall x, fst (recover_loop conv a service policy b (mkWorld c p' l)) = Ok x ->
               k = List.length L) /\
    recover_loop_raced conv a service policy closed b (mkWorld c p l) =
    (Some (fst (recover_loop conv a service policy b (mkWorld c p' l))),
     mkWorld (calls (snd (recover_loop conv a service policy b (mkWorld c p' l)))) (p + k) (l ++ L)).
Proof.
  revert c p p' l; induction b as [|[u|e] b IH]; intros c p p' l Hc;
    rewrite recover_loop_raced_unfold; cbn [calls polls log]; rewrite (Hc p) by lia.
  - exists [], 1; cbn; rewrite app_nil_r, Nat.add_1_r; repeat split; auto;
      [intros x Hx; discriminate].
  - rewrite ClientFacts.recover_loop_tick, init_raced_unfold; cbn [calls polls log].
    rewrite (Hc (S p)) by lia.
    rewrite (init_calls conv a service (mkWorld c (S p) (l ++ [ATick]))
               (mkWorld c p' (l ++ [ATick])) eq_refl).
    pose proof (ClientFacts.init_world conv a service (mkWorld c p' (l ++ [ATick]))) as Hw.
    destruct (init conv a service (mkWorld c p' (l ++ [ATick]))) as [[rsp|s] w2];
      cbn in Hw |- *; subst w2.
    + exists [ATick; ACall c], 2; cbn; rewrite <- app_assoc.
      repeat split; auto; rewrite (Nat.add_comm p 2); reflexivity.
    + destruct (policy s) as [b'|e'].
      * rewrite <- app_assoc; cbn [app].
        destruct (IH (S c) (S (S p)) p' (l ++ [ATick; ACall c])) as [L [k [HL [Hk [Hok Hr]]]]].
        { intros q Hq; apply Hc; lia. }
        exists ([ATick; ACall c] ++ L), (2 + k).
        rewrite HL, Hr, <- !app_assoc; cbn.
        split; [reflexivity|]; split; [lia|]; split.
        -- intros x Hx; rewrite (Hok x Hx); reflexivity.
        -- rewrite <- !Nat.add_succ_r, (Nat.add_comm p (S (S k))); reflexivity.
      * exists [ATick; ACall c], 2; cbn; rewrite <- app_assoc.
        repeat split; auto; try (intros ? ?; discriminate);
          rewrite (Nat.add_comm p 2); reflexivity.
  - exists [], 1; cbn; rewrite app_nil_r, Nat.add_1_r; repeat split; auto;
      [intros x Hx; discriminate].
Qed.

Lemma recover_raced_open conv a service policy closed (st : Status)
      (c p p' : nat) (l : list Action) :
  (forall q, p <= q -> closed q = false) ->
  exists L k,
    log (snd (recover conv a service policy st (mkWorld c p' l))) = l ++ L /\
    (k = List.length L \/ k = S (List.length L)) /\
    (forall x, fst (recover conv a service policy st (mkWorld c p' l)) = Ok x ->
               k = List.length L) /\
    recover_raced conv a service policy closed st (mkWorld c p l) =
    (Some (fst (recover conv a service policy st (mkWorld c p' l))),
     mkWorld (calls (snd (recover conv a service policy st (mkWorld c p' l)))) (p + k) (l ++ L)).
Proof.
  intros Hc; unfold recover, recover_raced; destruct (policy st) as [b|e].
  - apply recover_loop_raced_open; exact Hc.
  - exists [], 0; cbn; rewrite app_nil_r, Nat.add_0_r; repeat split; auto; discriminate.
Qed.

(** The recovery under the daemon's select only issues calls and consumes
    ticks, and a snapshot it returns comes from a successful [init]. *)
Lemma recover_loop_raced_world conv a service policy closed (b : Backoff) (w : World) :
  exists L, log (snd (recover_loop_raced conv a service policy closed b w)) = log w ++ L /\
    forallb is_rpc_action L = true /\
    (forall s rs, fst (recover_loop_raced conv a service policy closed b w) = Some (Ok (s, rs)) ->
       exists w0, fst (init conv a service w0) = Ok (s, rs)).
Proof.
  revert w; induction b as [|[u|e] b IH]; intros w; rewrite recover_loop_raced_unfold;
    destruct (closed (polls w)); cbn -[init_raced recover_loop_raced init];
    try (exists []; rewrite app_nil_r; repeat split; auto; intros ? ? ?; discriminate).
  rewrite init_raced_unfold; cbn -[recover_loop_raced init].
  set (w1 := mkWorld (calls w) (S (polls w)) (log w ++ [ATick])).
  destruct (closed (S (polls w))); cbn -[recover_loop_raced init].
  - exists [ATick; ACall (calls w)]; rewrite <- app_assoc; repeat split; auto;
      intros ? ? ?; discriminate.
  - destruct (fst (init conv a service w1)) as [[s0 rs0]|st] eqn:Ei;
      cbn -[recover_loop_raced init].
    + exists [ATick; ACall (calls w)]; rewrite <- app_assoc; repeat split; auto.
      intros s rs H; injection H as <- <-; exists w1; exact Ei.
    + destruct (policy st) as [b'|e']; cbn -[recover_loop_raced init].
      * destruct (IH (mkWorld (S (calls w)) (S (S (polls w)))
                        ((log w ++ [ATick]) ++ [ACall (calls w)]))) as [L [HL [HR Hok]]].
        exists ([ATick; ACall (calls w)] ++ L); split; [|split].
        -- rewrite HL; cbn [log]; rewrite <- !app_assoc; reflexivity.
        -- cbn; exact HR.
        -- exact Hok.
      * exists [ATick; ACall (calls w)]; rewrite <- app_assoc; repeat split; auto;
          intros ? ? ?; discriminate.
Qed.

Lemma recover_raced_world conv a service policy closed (st : Status) (w : World) :
  exists L, log (snd (recover_raced conv a service policy closed st w)) = log w ++ L /\
    forallb is_rpc_action L = true /\
    (forall s rs, fst (recover_raced conv a service policy closed st w) = Some (Ok (s, rs)) ->
       exists w0, fst (init conv a service w0) = Ok (s, rs)).
Proof.
  unfold recover_raced; destruct (policy st) as [b|e].
  - apply recover_loop_raced_world.
  - exists []; cbn; rewrite app_nil_r; repeat split; auto; intros ? ? ?; discriminate.
Qed.

(** The recovery future is dropped only at a wake that found the receivers
    gone, and that wake is its last step. *)
Lemma recover_loop_raced_none conv a service policy closed (b : Backoff) (w : World) :
  fst (recover_loop_raced conv a service policy closed b w) = None ->
  exists q, polls (snd (recover_loop_raced conv a service policy closed b w)) = S q /\
            closed q = true.
Proof.
  revert w; induction b as [|[u|e] b IH]; intros w; rewrite recover_loop_raced_unfold;
    destruct (closed (polls w)) eqn:Hc; cbn -[init_raced recover_loop_raced init];
    try discriminate; try (intros; eauto; fail).
  rewrite init_raced_unfold; cbn -[recover_loop_raced init].
  destruct (closed (S (polls w))) eqn:Hc'; cbn -[recover_loop_raced init]; [intros; eauto|].
  destruct (fst (init _ _ _ _)) as [rsp|st]; cbn -[recover_loop_raced init]; try discriminate.
  destruct (policy st); cbn -[recover_loop_raced init]; [apply IH|discriminate].
Qed.

(** Claim C3: the [tx.closed()] branch is polled first at every poll of a
    [select_biased!] of the daemon, and wins whenever the receivers are found
    gone, whatever the other branch has ready. In [broadcast], the stream is
    then not read: a daemon whose receivers are dropped before its next
    stream item exits cleanly with no call, tick or publication. In the
    daemon's select over the recovery, [tx.closed()] is polled when the
    select starts (a failed stream with the receivers gone exits with no
    reconnect attempt) and again at every wake of the recovery: waiting for
    a tick (no tick, no call follows) and waiting for a reconnect's answer
    (the answer, even a ready snapshot, is dropped). The recovery is only
    dropped at such a wake, and the daemon then exits cleanly at once, with
    no publication; in particular when the first reconnect's answer is a
    snapshot and the receivers are found gone at that same wake. *)
Theorem daemon_prefers_closed conv a service policy closed :
  (forall A (k : M A) (w : World), closed (polls w) = true ->
     select_biased_closed closed k w = (None, mkWorld (calls w) (S (polls w)) (log w))) /\
  (forall A (k : M (option A)) (w : World), closed (polls w) = true ->
     select_biased_closed_wakes closed k w = (None, mkWorld (calls w) (S (polls w)) (log w))) /\
  (forall (rs : Responses) (w : World), closed (polls w) = true ->
     broadcast conv a closed rs w = (Ok tt, mkWorld (calls w) (S (polls w)) (log w))) /\
  (forall fuel (rs : Responses) (w : World), closed (polls w) = true ->
     daemon conv a service policy closed (S fuel) rs w
     = (ExitClosed, mkWorld (calls w) (S (polls w)) (log w))) /\
  (forall fuel (rs : Responses) (w w1 : World) (s : Status),
     broadcast conv a closed rs w = (Err s, w1) -> closed (polls w1) = true ->
     daemon conv a service policy closed (S fuel) rs w
     = (ExitClosed, mkWorld (calls w) (S (polls w1)) (log w1))) /\
  (forall (b : Backoff) (w : World), closed (polls w) = true ->
     recover_loop_raced conv a service policy closed b w
     = (None, mkWorld (calls w) (S (polls w)) (log w))) /\
  (forall (w : World), closed (polls w) = true ->
     init_raced conv a service closed w
     = (None, mkWorld (S (calls w)) (S (polls w)) (log w ++ [ACall (calls w)]))) /\
  (forall (st : Status) (w : World),
     fst (recover_raced conv a service policy closed st w) = None ->
     exists q, polls (snd (recover_raced conv a service policy closed st w)) = S q /\
               closed q = true) /\
  (forall fuel (rs : Responses) (w w1 w2 : World) (s : Status),
     broadcast conv a closed rs w = (Err s, w1) -> closed (polls w1) = false ->
     recover_raced conv a service policy closed s (mkWorld (calls w1) (S (polls w1)) (log w1))
       = (None, w2) ->
     daemon conv a service policy closed (S fuel) rs w = (ExitClosed, w2)) /\
  (forall fuel (rs : Responses) (w w1 : World) (s : Status) (u : unit) (b : Backoff)
          (rsp : Api.StrategyResponse) (rest : Responses),
     broadcast conv a closed rs w = (Err s, w1) ->
     policy s = Ok (Ok u :: b) ->
     closed (polls w1) = false -> closed (S (polls w1)) = false ->
     service (calls w1) = Ok (Item rsp :: rest) ->
     closed (S (S (polls w1))) = true ->
     daemon conv a service policy closed (S fuel) rs w
     = (ExitClosed, mkWorld (S (calls w1)) (S (S (S (polls w1))))
                      (log w1 ++ [ATick; ACall (calls w1)]))).
Proof.
  assert (Hsel : forall A (k : M A) (w : World), closed (polls w) = true ->
     select_biased_closed closed k w = (None, mkWorld (calls w) (S (polls w)) (log w))).
  { intros A k w Hc; unfold select_biased_closed, bind, poll_closed; cbn.
    rewrite Hc; reflexivity. }
  assert (Hselw : forall A (k : M (option A)) (w : World), closed (polls w) = true ->
     select_biased_closed_wakes closed k w = (None, mkWorld (calls w) (S (polls w)) (log w))).
  { intros A k w Hc; rewrite select_wakes_unfold, Hc; reflexivity. }
  assert (Hbr : forall (rs : Responses) (w : World), closed (polls w) = true ->
     broadcast conv a closed rs w = (Ok tt, mkWorld (calls w) (S (polls w)) (log w))).
  { intros rs w Hc; destruct rs; cbn [broadcast]; unfold bind at 1;
      rewrite Hsel by exact Hc; reflexivity. }
  split; [exact Hsel|]; split; [exact Hselw|]; split; [exact Hbr|]; split;
    [|split; [|split; [|split; [|split; [|split]]]]].
  - intros fuel rs w Hc; rewrite daemon_step, Hbr by exact Hc; reflexivity.
  - intros fuel rs w w1 s Hb Hc; rewrite daemon_step, Hb, Hselw by exact Hc.
    pose proof (broadcast_calls conv a closed rs w) as Hk; rewrite Hb in Hk; cbn in Hk.
    rewrite Hk; reflexivity.
  - intros b w Hc; rewrite recover_loop_raced_unfold, Hc; reflexivity.
  - intros w Hc; rewrite init_raced_unfold, Hc; reflexivity.
  - intros st w; unfold recover_raced; destruct (policy st) as [b|e].
    + apply recover_loop_raced_none.
    + cbn; discriminate.
  - intros fuel rs w w1 w2 s Hb Hc Hr.
    rewrite daemon_step, Hb, select_wakes_unfold, Hc, Hr; reflexivity.
  - intros fuel rs w w1 s u b rsp rest Hb Hpol Hc1 Hc2 Hsvc Hc3.
    rewrite daemon_step, Hb, select_wakes_unfold, Hc1.
    unfold recover_raced; rewrite Hpol, recover_loop_raced_unfold; cbn [calls polls log].
    rewrite Hc2, init_raced_unfold; cbn [calls polls log]; rewrite Hc3, <- app_assoc.
    reflexivity.
Qed.

(** The case of the claim where both branches are ready: the stream fails
    at once, the first tick comes, the reconnect's answer is a snapshot, and
    the receivers are found gone at that very wake. *)
Lemma daemon_prefers_closed_witness :
  daemon Scenarios.conv_ip Scenarios.req_addr Scenarios.service_up Scenarios.policy_two
    (fun p => Nat.leb 3 p) 1 [Fail Scenarios.unavailable] Scenarios.world0
  = (ExitClosed, mkWorld 1 4 [ATick; ACall 0]).
Proof.
  destruct (daemon_prefers_closed Scenarios.conv_ip Scenarios.req_addr Scenarios.service_up
              Scenarios.policy_two (fun p => Nat.leb 3 p))
    as (_ & _ & _ & _ & _ & _ & _ & _ & _ & H).
  apply (H 0 [Fail Scenarios.unavailable] Scenarios.world0 (mkWorld 0 1 [])
           Scenarios.unavailable tt [Ok tt] (Scenarios.rsp_of 3) []); reflexivity.
Defined.

Example daemon_dropped_readers :
  daemon Scenarios.conv_ip Scenarios.req_addr Scenarios.service_up Scenarios.policy_two
    Scenarios.always_closed 3 Scenarios.stream_flaky Scenarios.world0
  = (ExitClosed, mkWorld 0 1 []).
Proof. reflexivity. Qed.

(** Claim C4 (counterexample): [watch] with the control plane down and a
    policy granting no tick: the
    call fails with [Unavailable], and [watch] fails with the synthetic
    [Backoff exhausted] status, not with that failure. *)
Lemma watch_exhausted_not_underlying :
  watch Scenarios.conv_ip Scenarios.req_addr Scenarios.service_down
    Scenarios.policy_none Scenarios.world0
  = (Err (EStatus backoff_exhausted), mkWorld 1 0 [ACall 0]) /\
  fst (init Scenarios.conv_ip Scenarios.req_addr Scenarios.service_down Scenarios.world0)
  = Err Scenarios.unavailable /\
  fst (watch Scenarios.conv_ip Scenarios.req_addr Scenarios.service_down
         Scenarios.policy_none Scenarios.world0)
  <> Err (EStatus Scenarios.unavailable).
Proof.
  split; [reflexivity|]; split; [reflexivity|].
  cbn; intros H; inversion H.
Qed.

(** Claim C4 (amended): if [watch] fails, its error is the recovery's: a
    rejection returned by the policy, an error of the backoff schedule, or
    the synthetic [Backoff exhausted] status; and it spawns no task. If it
    succeeds, its receiver holds the snapshot of the first response of a
    call's stream, and it spawns exactly one daemon, owning the rest of
    that stream. *)
Theorem watch_outcome conv a service policy (w : World) :
  let (r, w') := watch conv a service policy w in
  exists L, log w' = log w ++ L /\
  match r with
  | Err e =>
      spawns L = [] /\
      ((exists s e', policy s = Err e' /\ e = EStatus e') \/
       (exists n, e = EBackoff n) \/ e = EStatus backoff_exhausted)
  | Ok rx =>
      exists k rsp rest, service k = Ok (Item rsp :: rest) /\
        rx = mkReceiver (strategy_new conv a rsp) /\ spawns L = [rest]
  end.
Proof.
  unfold watch, bind at 1.
  pose proof (ClientFacts.init_world conv a service w) as Hw.
  pose proof (ClientFacts.init_ok conv a service w) as Hok.
  destruct (init conv a service w) as [r1 w1] eqn:Ei; cbn in Hw, Hok; subst w1.
  destruct r1 as [[s rs]|st].
  - specialize (Hok s rs eq_refl) as [rsp [Hs ->]].
    unfold bind, ret, emit; cbn.
    exists [ACall (calls w); ASpawn rs]; rewrite <- app_assoc; split; [reflexivity|].
    exists (calls w), rsp, rs; auto.
  - unfold bind at 1.
    set (w1 := mkWorld (S (calls w)) (polls w) (log w ++ [ACall (calls w)])).
    pose proof (ClientFacts.recover_world conv a service policy st w1) as [L [HL [_ HrL]]].
    pose proof (recover_ok conv a service policy st w1) as Hrok.
    pose proof (recover_err conv a service policy st w1) as Hrerr.
    destruct (recover conv a service policy st w1) as [r2 w2]; cbn in HL, Hrok, Hrerr.
    destruct (rpc_actions_quiet L HrL) as [_ HsL].
    destruct r2 as [[s rs]|e].
    + destruct (Hrok s rs eq_refl) as [w0 Hi0].
      destruct (ClientFacts.init_ok conv a service w0 s rs Hi0) as [rsp [Hs ->]].
      unfold ret, emit; cbn.
      exists (ACall (calls w) :: L ++ [ASpawn rs]).
      rewrite HL; cbn; rewrite <- !app_assoc; split; [reflexivity|].
      exists (calls w0), rsp, rs; split; [exact Hs|split; [reflexivity|]].
      unfold spawns in *; rewrite flat_map_app, HsL; reflexivity.
    + unfold ret; cbn.
      exists (ACall (calls w) :: L); rewrite HL; cbn; rewrite <- app_assoc.
      split; [reflexivity|split; [exact HsL| exact (Hrerr e eq_refl)]].
Qed.

(** Claim C5: [init] reads exactly one response of the new stream, and the
    daemon owns the rest; a stream that closes with no response gives the
    synthetic [Ok] status "server closed stream", as a failing call or a
    failing stream gives its status. Recovery and the daemon treat that
    status like any transport failure: the outcome is the same as for any
    status on which the policy gives the same answer, so it is retried
    whenever the policy retries transport failures. *)
Theorem init_closed_stream_retryable conv a service policy :
  (forall (w : World) rsp rest, service (calls w) = Ok (Item rsp :: rest) ->
     fst (init conv a service w) = Ok (strategy_new conv a rsp, rest)) /\
  (forall (w : World), service (calls w) = Ok [] ->
     fst (init conv a service w) = Err server_closed) /\
  (forall (w : World) st rest, service (calls w) = Ok (Fail st :: rest) ->
     fst (init conv a service w) = Err st) /\
  (forall (w : World) st, service (calls w) = Err st ->
     fst (init conv a service w) = Err st) /\
  (forall st (w : World), policy st = policy server_closed ->
     recover conv a service policy server_closed w = recover conv a service policy st w) /\
  (forall closed fuel st (w : World), policy st = policy server_closed ->
     daemon conv a service policy closed (S fuel) [] w
     = daemon conv a service policy closed (S fuel) [Fail st] w).
Proof.
  split; [|split; [|split; [|split; [|split]]]].
  - intros w rsp rest H; unfold init, bind, next_call; cbn; rewrite H; reflexivity.
  - intros w H; unfold init, bind, next_call; cbn; rewrite H; reflexivity.
  - intros w st rest H; unfold init, bind, next_call; cbn; rewrite H; reflexivity.
  - intros w st H; unfold init, bind, next_call; cbn; rewrite H; reflexivity.
  - intros st w H; unfold recover; rewrite H; reflexivity.
  - intros closed fuel st w H; rewrite !daemon_step.
    change [Fail st] with (stream_end (Some st)); change [] with (stream_end None).
    rewrite !broadcast_end; destruct (closed (polls w)); [reflexivity|].
    assert (E : recover_raced conv a service policy closed server_closed
                = recover_raced conv a service policy closed st)
      by (unfold recover_raced; rewrite H; reflexivity).
    cbn [end_status]; rewrite E; reflexivity.
Qed.

(** Claim C6: with the receivers alive, the daemon publishes every item of
    its stream in order; when the stream ends (closed or failed) and the
    recovery returns a new snapshot and stream, it publishes that snapshot
    after the recovery's calls and ticks (which publish nothing, and each
    come with one wake of the select), then continues with the fresh
    stream. *)
Theorem daemon_republishes_after_recovery conv a service policy closed (fuel : nat)
        (items : list Api.StrategyResponse) (ending : option Status) (w : World)
        (s0 : Strategy) (rs2 : Responses) :
  (forall p, closed p = false) ->
  fst (recover conv a service policy (end_status ending)
         (mkWorld (calls w) (S (polls w + List.length items + 1))
            (log w ++ map (fun r => APublish (strategy_new conv a r)) items)))
    = Ok (s0, rs2) ->
  exists c L, forallb is_rpc_action L = true /\
    daemon conv a service policy closed (S fuel) (map Item items ++ stream_end ending) w
    = daemon conv a service policy closed fuel rs2
        (mkWorld c (S (polls w + List.length items + 1) + List.length L)
           (log w ++ map (fun r => APublish (strategy_new conv a r)) items
                  ++ L ++ [APublish s0])).
Proof.
  intros Hc Hrec.
  rewrite daemon_step, broadcast_relays by exact Hc.
  rewrite select_wakes_unfold, Hc; cbn [calls polls log].
  set (p1 := S (polls w + List.length items + 1)) in *.
  set (l1 := log w ++ map (fun r => APublish (strategy_new conv a r)) items) in *.
  destruct (recover_raced_open conv a service policy closed (end_status ending)
              (calls w) p1 p1 l1 (fun q _ => Hc q)) as [L [k [HL [_ [Hk Hr]]]]].
  pose proof (ClientFacts.recover_world conv a service policy (end_status ending)
                (mkWorld (calls w) p1 l1)) as [L0 [HL0 [_ HR0]]].
  rewrite Hr; clear Hr.
  destruct (recover conv a service policy (end_status ending) (mkWorld (calls w) p1 l1))
    as [r2 w2]; cbn [fst snd] in *; subst r2.
  rewrite (Hk _ eq_refl).
  rewrite HL in HL0; cbn [log] in HL0; apply app_inv_head in HL0; subst L0.
  exists (calls w2), L; split; [exact HR0|].
  unfold publish, emit; cbn; unfold l1; rewrite <- !app_assoc; reflexivity.
Qed.

(** The scenario of the claim: a stream relays two snapshots then fails;
    the reconnect succeeds and its snapshot is published next. *)
Lemma daemon_republishes_after_recovery_witness :
  exists c L, forallb is_rpc_action L = true /\
    daemon Scenarios.conv_ip Scenarios.req_addr Scenarios.service_up Scenarios.policy_two
      Scenarios.never_closed 1 Scenarios.stream_flaky Scenarios.world0
    = daemon Scenarios.conv_ip Scenarios.req_addr Scenarios.service_up Scenarios.policy_two
        Scenarios.never_closed 0 []
        (mkWorld c (4 + List.length L)
           ([] ++ map (fun r => APublish (strategy_new Scenarios.conv_ip Scenarios.req_addr r))
                   [Scenarios.rsp_of 1; Scenarios.rsp_of 2]
               ++ L ++ [APublish (strategy_new Scenarios.conv_ip Scenarios.req_addr
                                    (Scenarios.rsp_of 3))])).
Proof.
  apply (daemon_republishes_after_recovery Scenarios.conv_ip Scenarios.req_addr
           Scenarios.service_up Scenarios.policy_two Scenarios.never_closed 0
           [Scenarios.rsp_of 1; Scenarios.rsp_of 2] (Some Scenarios.unavailable)
           Scenarios.world0).
  - intros p; reflexivity.
  - reflexivity.
Defined.

(** The whole run: the two relayed snapshots, the reconnect, the new
    snapshot, then the graceful close of the new stream and a second
    recovery that runs out of ticks against the same control plane. *)
Example daemon_flaky_run :
  published (log (snd (daemon Scenarios.conv_ip Scenarios.req_addr Scenarios.service_up
     Scenarios.policy_two Scenarios.never_closed 2 Scenarios.stream_flaky Scenarios.world0)))
  = map (fun n => strategy_new Scenarios.conv_ip Scenarios.req_addr (Scenarios.rsp_of n))
      [1; 2; 3; 3].
Proof. reflexivity. Qed.

End DaemonFacts.

(* ------------------------------------------------------------------ *)
(** ** The request-metrics registry *)

Module RegistryFacts.

Import RequestMetrics.

Lemma retain_since_spec {T C} (cutoff : Instant) (r : Registry T C) (e : T * Arc C) :
  In e (by_target (retain_since cutoff r)) <-> In e (by_target r) /\ retain_entry cutoff e = true.
Proof. unfold retain_since; cbn; apply filter_In. Qed.

(** Claim C1: after [retain_since(t)], an entry [(k, h)] of the registry is
    still there iff [t <= last_update] or a handle besides the registry's
    own is held ([strong_count > 1]); it is gone iff [last_update < t] and
    the registry's own reference is the only one; every entry still there
    was in the registry with the same handle and record. *)
Theorem retain_since_evicts_stale_unreferenced {T C} (t : Instant) (r : Registry T C)
        (k : T) (h : Arc C) :
  (In (k, h) (by_target (retain_since t r)) <->
     In (k, h) (by_target r) /\ (t <= last_update (inner h) \/ 1 < strong_count h)) /\
  (In (k, h) (by_target r) /\ ~ In (k, h) (by_target (retain_since t r)) <->
     In (k, h) (by_target r) /\ last_update (inner h) < t /\ strong_count h = 1) /\
  (forall e, In e (by_target (retain_since t r)) -> In e (by_target r)).
Proof.
  split; [|split].
  - rewrite retain_since_spec; unfold retain_entry; cbn [snd].
    rewrite orb_true_iff, Nat.ltb_lt, Nat.leb_le; tauto.
  - rewrite retain_since_spec; unfold retain_entry, strong_count; cbn [snd].
    rewrite orb_true_iff, Nat.ltb_lt, Nat.leb_le.
    split; intros [Hin Hk]; split; try exact Hin.
    + assert (~ (1 < S (ext_refs h) \/ t <= last_update (inner h))) by tauto; lia.
    + intros [_ Hr]; lia.
  - intros e He; apply retain_since_spec in He; tauto.
Qed.

(** The scenario of [tests::expiry]: a record for [Target(123)] created at
    time 5 ([before_update]), swept with [after_update = 6] while the
    test holds a handle, then with [before_update] and [after_update] once
    the handle is dropped. *)
Example expiry :
  let rec := metrics_default (C := unit) 5 in
  let held := @mkRegistry nat unit [(123, mkArc 1 rec)] in
  let dropped := @mkRegistry nat unit [(123, mkArc 0 rec)] in
  List.length (by_target (retain_since 6 held)) = 1 /\
  List.length (by_target (retain_since 5 dropped)) = 1 /\
  List.length (by_target (retain_since 6 (retain_since 5 dropped))) = 0.
Proof. repeat split. Qed.

(** The handle a client step names is a handle of the registry. *)
Lemma nth_handle_reg (hs : list Requests) (r0 : Requests) (i : nat) :
  (forall x, In x hs -> requests_reg x = requests_reg r0) ->
  requests_reg (nth i hs r0) = requests_reg r0.
Proof.
  intros Hhs; destruct (nth_in_or_default i hs r0) as [Hin|Hd]; [exact (Hhs _ Hin)|].
  rewrite Hd; reflexivity.
Qed.

(** A client of handles that all point to one allocation only makes more
    such handles, one per clone; the allocation's strong count grows by one
    per clone, and its registry receives every mutation, in order. *)
Lemma run_handles_shared {T C} (ops : list (HandleOp T C)) (hs : list Requests)
      (r0 : Requests) (h : Heap T C) :
  (forall x, In x hs -> requests_reg x = requests_reg r0) ->
  (forall x, In x (fst (run_handles T C ops hs r0 h)) -> requests_reg x = requests_reg r0) /\
  List.length (fst (run_handles T C ops hs r0 h)) = List.length hs + op_clones T C ops /\
  snd (run_handles T C ops hs r0 h) (requests_reg r0)
  = mkArcInner T C (strong T C (h (requests_reg r0)) + op_clones T C ops)
      (fold_left (fun reg f => f reg) (op_writes T C ops) (data T C (h (requests_reg r0)))).
Proof.
  revert hs h; induction ops as [|[i|i f] ops IH]; intros hs h Hhs.
  - cbn; rewrite Nat.add_0_r; split; [exact Hhs|split; [reflexivity|]].
    destruct (h (requests_reg r0)); cbn; rewrite Nat.add_0_r; reflexivity.
  - cbn [run_handles]; unfold requests_clone; rewrite (nth_handle_reg hs r0 i Hhs).
    destruct (IH (hs ++ [mkRequests (requests_reg r0)])
                 (heap_update T C h (requests_reg r0)
                    (mkArcInner T C (S (strong T C (h (requests_reg r0))))
                       (data T C (h (requests_reg r0))))))
      as [Hin [Hlen Hcell]].
    { intros x Hx; apply in_app_or in Hx as [Hx|[<-|[]]]; [exact (Hhs _ Hx)|reflexivity]. }
    split; [exact Hin|split].
    + rewrite Hlen, length_app; cbn [op_clones filter List.length]; unfold op_clones; lia.
    + rewrite Hcell; unfold heap_update; rewrite Nat.eqb_refl; cbn [strong data].
      f_equal; unfold op_clones; cbn [filter List.length]; lia.
  - cbn [run_handles]; unfold requests_write; rewrite (nth_handle_reg hs r0 i Hhs).
    destruct (IH hs (heap_update T C h (requests_reg r0)
                       (mkArcInner T C (strong T C (h (requests_reg r0)))
                          (f (data T C (h (requests_reg r0)))))) Hhs)
      as [Hin [Hlen Hcell]].
    split; [exact Hin|split; [exact Hlen|]].
    rewrite Hcell; unfold heap_update; rewrite Nat.eqb_refl; reflexivity.
Qed.

(** Claim C10: a [Requests] handle and the clones made from it, or from its
    clones, all point to one shared allocation, not to copies. Whatever
    sequence of clones and mutations a client performs through them, every
    handle it ends with, and the [Report] and [Layer] made from any of them,
    reads the same registry: the original one with all the mutations
    applied in order. The allocation's strong count grows by one per clone,
    so that there is still a single registry. *)
Theorem requests_clones_share_registry {T C} (r : Requests) (ops : list (HandleOp T C))
        (h : Heap T C) (retain : nat) :
  let (hs, h') := run_handles T C ops [r] r h in
  List.length hs = S (op_clones T C ops) /\
  strong T C (h' (requests_reg r)) = strong T C (h (requests_reg r)) + op_clones T C ops /\
  (forall x, In x hs ->
     requests_read T C h' x
       = fold_left (fun reg f => f reg) (op_writes T C ops) (requests_read T C h r) /\
     report_read T C h' (into_report x retain) = requests_read T C h' x /\
     layer_read T C h' (into_layer x) = requests_read T C h' x).
Proof.
  destruct (run_handles_shared ops [r] r h) as [Hin [Hlen Hcell]].
  { intros x [<-|[]]; reflexivity. }
  destruct (run_handles T C ops [r] r h) as [hs h']; cbn [fst snd] in *.
  split; [exact Hlen|split; [rewrite Hcell; reflexivity|]].
  intros x Hx; unfold requests_read, report_read, layer_read, into_report, into_layer; cbn.
  rewrite (Hin x Hx), Hcell; cbn; auto.
Qed.

(** The client of [tests::expiry]: [r.clone().into_report(..)], then a
    record created through [r]; the report sees it. *)
Example expiry_report_sees_writes :
  let new_target (reg : Registry nat unit) :=
    mkRegistry ((123, mkArc 0 (metrics_default (C := unit) 5)) :: by_target reg) in
  let h0 (_ : Loc) := mkArcInner nat unit 1 registry_default in
  let (hs, h') := run_handles nat unit [OClone 0; OWrite 0 new_target] [mkRequests 0]
                    (mkRequests 0) h0 in
  List.map (fun x => List.length (by_target (report_read nat unit h' (into_report x 1)))) hs
  = [1; 1] /\ strong nat unit (h' 0) = 2.
Proof. split; reflexivity. Qed.

End RegistryFacts.

(* ------------------------------------------------------------------ *)
(** ** Further properties of the client *)

Module ClientExtra.

(** [recover] fails without any call, tick or other effect when the policy
    rejects the failure (with the policy's error), when the schedule is empty
    ([Backoff exhausted]), or when its first tick is an error (that error). *)
Theorem recover_fails_without_call conv a service policy (st : Status) (w : World) :
  (forall e, policy st = Err e ->
     recover conv a service policy st w = (Err (EStatus e), w)) /\
  (policy st = Ok [] ->
     recover conv a service policy st w = (Err (EStatus backoff_exhausted), w)) /\
  (forall n b, policy st = Ok (Err n :: b) ->
     recover conv a service policy st w = (Err (EBackoff n), w)).
Proof.
  split; [|split]; intros *; unfold recover; intros H; rewrite H; reflexivity.
Qed.

Lemma recover_loop_shape conv a service policy (b : Backoff) (w : World) :
  exists m, m <= List.length b /\
    snd (recover_loop conv a service policy b w) =
    mkWorld (calls w + m) (polls w)
      (log w ++ flat_map (fun k => [ATick; ACall k]) (seq (calls w) m)).
Proof.
  revert w; induction b as [|[u|e] b IH]; intros w.
  - exists 0; cbn; rewrite Nat.add_0_r, app_nil_r; destruct w; split; [lia|reflexivity].
  - rewrite ClientFacts.recover_loop_tick.
    pose proof (ClientFacts.init_world conv a service
                  (mkWorld (calls w) (polls w) (log w ++ [ATick]))) as Hw.
    destruct (init conv a service _) as [[rsp|s] w2]; cbn in Hw; subst w2.
    + exists 1; cbn; rewrite Nat.add_1_r, <- app_assoc; split; [lia|reflexivity].
    + destruct (policy s) as [b'|e].
      * destruct (IH (mkWorld (S (calls w)) (polls w) ((log w ++ [ATick]) ++ [ACall (calls w)])))
          as [m [Hm Hr]].
        exists (S m); rewrite Hr; cbn; split; [lia|].
        rewrite Nat.add_succ_r, <- !app_assoc; reflexivity.
      * exists 1; cbn; rewrite Nat.add_1_r, <- app_assoc; split; [lia|reflexivity].
  - exists 0; cbn; rewrite Nat.add_0_r, app_nil_r; destruct w; split; [lia|reflexivity].
Qed.

(** Every tick [recover] consumes is followed by exactly one call, the calls
    are numbered consecutively, the polls are untouched, and no more ticks are
    consumed than the schedule the policy gave for the original failure has. *)
Theorem recover_tick_call_pairs conv a service policy (st : Status) (w : World) :
  exists m,
    snd (recover conv a service policy st w) =
      mkWorld (calls w + m) (polls w)
        (log w ++ flat_map (fun k => [ATick; ACall k]) (seq (calls w) m)) /\
    (forall b, policy st = Ok b -> m <= List.length b).
Proof.
  unfold recover; destruct (policy st) as [b|e].
  - destruct (recover_loop_shape conv a service policy b w) as [m [Hm Hr]].
    exists m; split; [exact Hr|]; intros b' Hb; inversion Hb; subst; exact Hm.
  - exists 0; cbn; rewrite Nat.add_0_r, app_nil_r; destruct w; split; [reflexivity|].
    intros b H; discriminate.
Qed.

Lemma recover_loop_first_success conv a service policy (n j : nat) (w : World)
      (rsp : Api.StrategyResponse) (rest : Responses) :
  j < n ->
  (forall s, exists b', policy s = Ok b') ->
  (forall k, k < j -> exists s, service (calls w + k) = Err s) ->
  service (calls w + j) = Ok (Item rsp :: rest) ->
  recover_loop conv a service policy (repeat (Ok tt) n) w =
  (Ok (strategy_new conv a rsp, rest),
   mkWorld (calls w + S j) (polls w)
     (log w ++ flat_map (fun k => [ATick; ACall k]) (seq (calls w) (S j)))).
Proof.
  revert n w; induction j as [|j IH]; intros n w Hjn Hpol Hfail Hok;
    (destruct n as [|n]; [lia|]); cbn [repeat]; rewrite ClientFacts.recover_loop_tick;
    unfold init, bind, next_call; cbn.
  - rewrite Nat.add_0_r in Hok; rewrite Hok; cbn.
    rewrite Nat.add_1_r, <- app_assoc; reflexivity.
  - destruct (Hfail 0 ltac:(lia)) as [s Hs]; rewrite Nat.add_0_r in Hs; rewrite Hs; cbn.
    destruct (Hpol s) as [b' Hb']; rewrite Hb'.
    rewrite (IH n); cbn; try lia; auto.
    + rewrite <- !app_assoc; cbn; do 2 f_equal; lia.
    + intros k Hk; cbn; rewrite <- Nat.add_succ_r; apply Hfail; lia.
    + cbn; rewrite <- Nat.add_succ_r; exact Hok.
Qed.

(** With a schedule of [n] ticks and the policy accepting the failures, when
    the first [j] reconnects fail and reconnect [j] ([j < n]) streams a
    response, [recover] returns that response's snapshot and the rest of its
    stream after exactly [j + 1] ticks and calls, and retries no further. *)
Theorem recover_returns_first_success conv a service policy (st : Status) (n j : nat)
        (w : World) (rsp : Api.StrategyResponse) (rest : Responses) :
  policy st = Ok (repeat (Ok tt) n) ->
  j < n ->
  (forall s, exists b', policy s = Ok b') ->
  (forall k, k < j -> exists s, service (calls w + k) = Err s) ->
  service (calls w + j) = Ok (Item rsp :: rest) ->
  recover conv a service policy st w =
  (Ok (strategy_new conv a rsp, rest),
   mkWorld (calls w + S j) (polls w)
     (log w ++ flat_map (fun k => [ATick; ACall k]) (seq (calls w) (S j)))).
Proof.
  intros Hst Hjn Hpol Hfail Hok; unfold recover; rewrite Hst.
  apply recover_loop_first_success; assumption.
Qed.

Lemma recover_returns_first_success_witness :
  recover Scenarios.conv_ip Scenarios.req_addr
    (fun k => if Nat.eqb k 0 then Err Scenarios.unavailable else Ok [Item (Scenarios.rsp_of 3)])
    Scenarios.policy_two Scenarios.unavailable Scenarios.world0 =
  (Ok (strategy_new Scenarios.conv_ip Scenarios.req_addr (Scenarios.rsp_of 3), []),
   mkWorld 2 0 [ATick; ACall 0; ATick; ACall 1]).
Proof.
  apply (recover_returns_first_success Scenarios.conv_ip Scenarios.req_addr
           (fun k => if Nat.eqb k 0 then Err Scenarios.unavailable else Ok [Item (Scenarios.rsp_of 3)])
           Scenarios.policy_two Scenarios.unavailable 2 1 Scenarios.world0).
  - reflexivity.
  - lia.
  - intros s; eexists; reflexivity.
  - intros k Hk; assert (k = 0) by lia; subst; eexists; reflexivity.
  - reflexivity.
Defined.

(** When a reconnect fails and the policy rejects that failure, [recover]
    stops at once with the rejection, after that single tick and call, even
    with ticks left in the schedule. *)
Theorem recover_stops_on_rejection conv a service policy (st s e : Status) (u : unit)
        (b : Backoff) (w : World) :
  policy st = Ok (Ok u :: b) ->
  service (calls w) = Err s ->
  policy s = Err e ->
  recover conv a service policy st w =
  (Err (EStatus e), mkWorld (S (calls w)) (polls w) (log w ++ [ATick; ACall (calls w)])).
Proof.
  intros Hst Hs He; unfold recover; rewrite Hst, ClientFacts.recover_loop_tick.
  unfold init, bind, next_call; cbn; rewrite Hs; cbn; rewrite He, <- app_assoc; reflexivity.
Qed.

Lemma recover_stops_on_rejection_witness :
  recover Scenarios.conv_ip Scenarios.req_addr (fun _ => Err Scenarios.invalid_argument)
    (fun s => if Nat.eqb (code s) 14 then Ok [Ok tt; Ok tt] else Err s)
    Scenarios.unavailable Scenarios.world0
  = (Err (EStatus Scenarios.invalid_argument), mkWorld 1 0 [ATick; ACall 0]).
Proof.
  apply (recover_stops_on_rejection Scenarios.conv_ip Scenarios.req_addr
           (fun _ => Err Scenarios.invalid_argument)
           (fun s => if Nat.eqb (code s) 14 then Ok [Ok tt; Ok tt] else Err s)
           Scenarios.unavailable Scenarios.invalid_argument Scenarios.invalid_argument tt
           [Ok tt] Scenarios.world0); reflexivity.
Defined.

End ClientExtra.

Module DaemonExtra.

Lemma select_unfold {A} closed (k : M A) (w : World) :
  select_biased_closed closed k w =
  if closed (polls w) then (None, mkWorld (calls w) (S (polls w)) (log w))
  else let (x, w') := k (mkWorld (calls w) (S (polls w)) (log w)) in (Some x, w').
Proof.
  unfold select_biased_closed, bind at 1, poll_closed; cbn.
  destruct (closed (polls w)); reflexivity.
Qed.

Lemma broadcast_unfold conv a closed (rs : Responses) (w : World) :
  broadcast conv a closed rs w =
  if closed (polls w) then (Ok tt, mkWorld (calls w) (S (polls w)) (log w))
  else match rs with
       | [] => (Err server_closed, mkWorld (calls w) (S (polls w)) (log w))
       | Fail s :: _ => (Err s, mkWorld (calls w) (S (polls w)) (log w))
       | Item r :: rest =>
           broadcast conv a closed rest
             (mkWorld (calls w) (S (polls w)) (log w ++ [APublish (strategy_new conv a r)]))
       end.
Proof.
  destruct rs as [|[r|s] rest]; cbn [broadcast]; unfold bind at 1; rewrite select_unfold;
    destruct (closed (polls w)); reflexivity.
Qed.

(** With the receivers alive, [broadcast] publishes the items before the
    first failure of the stream, in order, returns that failure's status, and
    never reads or publishes what follows it. *)
Theorem broadcast_stops_at_failure conv a closed (items : list Api.StrategyResponse)
        (st : Status) (rest : Responses) (w : World) :
  (forall p, closed p = false) ->
  broadcast conv a closed (map Item items ++ Fail st :: rest) w =
  (Err st, mkWorld (calls w) (polls w + List.length items + 1)
             (log w ++ map (fun r => APublish (strategy_new conv a r)) items)).
Proof.
  intros Hc; revert w; induction items as [|r items IH]; intros w;
    rewrite broadcast_unfold, Hc; cbn [map app].
  - rewrite Nat.add_0_r, Nat.add_1_r, app_nil_r; reflexivity.
  - rewrite IH; cbn; rewrite <- app_assoc; do 2 f_equal; lia.
Qed.

Lemma broadcast_stops_at_failure_witness :
  broadcast Scenarios.conv_ip Scenarios.req_addr Scenarios.never_closed
    [Item (Scenarios.rsp_of 1); Fail Scenarios.unavailable; Item (Scenarios.rsp_of 2)]
    Scenarios.world0 =
  (Err Scenarios.unavailable,
   mkWorld 0 2 [APublish (strategy_new Scenarios.conv_ip Scenarios.req_addr (Scenarios.rsp_of 1))]).
Proof.
  apply (broadcast_stops_at_failure Scenarios.conv_ip Scenarios.req_addr Scenarios.never_closed
           [Scenarios.rsp_of 1] Scenarios.unavailable [Item (Scenarios.rsp_of 2)]
           Scenarios.world0).
  intros p; reflexivity.
Defined.

(** [broadcast] issues no RPC call, and it returns [Ok] only when its last
    poll found every receiver dropped. *)
Theorem broadcast_ok_only_on_drop conv a closed (rs : Responses) (w : World) :
  calls (snd (broadcast conv a closed rs w)) = calls w /\
  (fst (broadcast conv a closed rs w) = Ok tt ->
   exists p, polls (snd (broadcast conv a closed rs w)) = S p /\ closed p = true).
Proof.
  split; [apply DaemonFacts.broadcast_calls|].
  revert w; induction rs as [|[r|s] rest IH]; intros w; rewrite broadcast_unfold;
    destruct (closed (polls w)) eqn:Hc; cbn; try discriminate; eauto.
Qed.

(** The log [broadcast] adds holds only publications of snapshots built from
    stream items. *)
Lemma broadcast_log conv a closed (rs : Responses) (w : World) :
  exists L, log (snd (broadcast conv a closed rs w)) = log w ++ L /\
    Forall (fun x => exists rsp, x = APublish (strategy_new conv a rsp)) L.
Proof.
  revert w; induction rs as [|[r|s] rest IH]; intros w; rewrite broadcast_unfold;
    destruct (closed (polls w)); cbn; try (exists []; rewrite app_nil_r; auto; fail).
  destruct (IH (mkWorld (calls w) (S (polls w)) (log w ++ [APublish (strategy_new conv a r)])))
    as [L [HL HF]].
  exists (APublish (strategy_new conv a r) :: L); rewrite HL; cbn; rewrite <- app_assoc.
  split; [reflexivity|]; constructor; eauto.
Qed.

(** Everything the daemon does is an RPC call, a backoff tick, or the
    publication of a snapshot for the watched address; it never spawns a task. *)
Theorem daemon_publishes_watched_addr conv a service policy closed (fuel : nat)
        (rs : Responses) (w : World) :
  exists L, log (snd (daemon conv a service policy closed fuel rs w)) = log w ++ L /\
    Forall (fun x => match x with
                     | APublish s => addr s = a
                     | ASpawn _ => False
                     | _ => True
                     end) L.
Proof.
  revert rs w; induction fuel as [|fuel IH]; intros rs w.
  - exists []; cbn; rewrite app_nil_r; auto.
  - rewrite DaemonFacts.daemon_step.
    destruct (broadcast_log conv a closed rs w) as [L1 [HL1 HF1]].
    assert (HF1' : Forall (fun x => match x with
                     | APublish s => addr s = a | ASpawn _ => False | _ => True end) L1).
    { eapply Forall_impl; [|exact HF1]; intros x [rsp ->]; reflexivity. }
    destruct (broadcast conv a closed rs w) as [[u|s] w1]; cbn in HL1.
    + exists L1; auto.
    + rewrite DaemonFacts.select_wakes_unfold; destruct (closed (polls w1)).
      * exists L1; cbn; auto.
      * set (w1' := mkWorld (calls w1) (S (polls w1)) (log w1)).
        pose proof (DaemonFacts.recover_raced_world conv a service policy closed s w1')
          as [L2 [HL2 [HR2 Hok]]].
        destruct (recover_raced conv a service policy closed s w1') as [r2 w2]; cbn in HL2, Hok.
        assert (HF2 : Forall (fun x => match x with
                     | APublish s => addr s = a | ASpawn _ => False | _ => True end) L2).
        { apply Forall_forall; intros x Hx; apply forallb_forall with (x := x) in HR2;
            [|exact Hx]; destruct x; cbn in HR2 |- *; auto; discriminate. }
        destruct r2 as [[[s0 rs2]|e]|].
        -- destruct (Hok s0 rs2 eq_refl) as [w0 Hi].
           destruct (ClientFacts.init_ok conv a service w0 s0 rs2 Hi) as [rsp [_ ->]].
           unfold publish, emit; cbn.
           destruct (IH rs2 (mkWorld (calls w2) (polls w2)
                              (log w2 ++ [APublish (strategy_new conv a rsp)])))
             as [L3 [HL3 HF3]].
           exists (L1 ++ L2 ++ [APublish (strategy_new conv a rsp)] ++ L3).
           rewrite HL3; cbn; rewrite HL2; cbn; rewrite HL1, <- !app_assoc; split; [reflexivity|].
           repeat (apply Forall_app; split); auto.
        -- exists (L1 ++ L2); cbn; rewrite HL2; cbn; rewrite HL1, <- app_assoc; split; [reflexivity|].
           apply Forall_app; auto.
        -- exists (L1 ++ L2); cbn; rewrite HL2; cbn; rewrite HL1, <- app_assoc; split; [reflexivity|].
           apply Forall_app; auto.
Qed.

End DaemonExtra.

Module WatchExtra.



(** When the first call streams a response, [watch] runs no recovery: it
    issues that single call, consumes no tick, seeds the receiver with the
    response's snapshot and spawns one daemon owning the rest of the stream. *)
Theorem watch_first_try conv a service policy (w : World)
        (rsp : Api.StrategyResponse) (rest : Responses) :
  service (calls w) = Ok (Item rsp :: rest) ->
  watch conv a service policy w =
  (Ok (mkReceiver (strategy_new conv a rsp)),
   mkWorld (S (calls w)) (polls w) (log w ++ [ACall (calls w); ASpawn rest])).
Proof.
  intros H; unfold watch, init, bind, next_call; cbn; rewrite H; cbn.
  unfold emit, ret; cbn; rewrite <- app_assoc; reflexivity.
Qed.

Lemma watch_first_try_witness :
  watch Scenarios.conv_ip Scenarios.req_addr Scenarios.service_up Scenarios.policy_none
    Scenarios.world0 =
  (Ok (mkReceiver (strategy_new Scenarios.conv_ip Scenarios.req_addr (Scenarios.rsp_of 3))),
   mkWorld 1 0 [ACall 0; ASpawn []]).
Proof.
  apply (watch_first_try Scenarios.conv_ip Scenarios.req_addr Scenarios.service_up
           Scenarios.policy_none Scenarios.world0 (Scenarios.rsp_of 3) []); reflexivity.
Defined.

(** The receiver [watch] returns holds a snapshot for the watched address. *)
Theorem watch_receiver_addr conv a service policy (w : World) (rx : Receiver) :
  fst (watch conv a service policy w) = Ok rx -> addr (rx_value rx) = a.
Proof.
  unfold watch, bind at 1.
  pose proof (ClientFacts.init_ok conv a service w) as Hok.
  destruct (init conv a service w) as [[[s rs]|st] w1]; cbn in Hok.
  - destruct (Hok s rs eq_refl) as [rsp [_ ->]].
    unfold bind, emit, ret; cbn; intros H; inversion H; reflexivity.
  - unfold bind at 1.
    pose proof (DaemonFacts.recover_ok conv a service policy st w1) as Hrok.
    destruct (recover conv a service policy st w1) as [[[s rs]|e] w2]; cbn in Hrok.
    + destruct (Hrok s rs eq_refl) as [w0 Hi].
      destruct (ClientFacts.init_ok conv a service w0 s rs Hi) as [rsp [_ ->]].
      unfold bind, emit, ret; cbn; intros H; inversion H; reflexivity.
    + unfold ret; cbn; discriminate.
Qed.

Lemma watch_receiver_addr_witness :
  fst (watch Scenarios.conv_ip Scenarios.req_addr
         (fun k => if Nat.eqb k 0 then Err Scenarios.unavailable else Ok [Item (Scenarios.rsp_of 3)])
         Scenarios.policy_two Scenarios.world0)
    = Ok (mkReceiver (strategy_new Scenarios.conv_ip Scenarios.req_addr (Scenarios.rsp_of 3))) /\
  addr (rx_value (mkReceiver (strategy_new Scenarios.conv_ip Scenarios.req_addr
                                (Scenarios.rsp_of 3)))) = Scenarios.req_addr.
Proof.
  split; [reflexivity|].
  apply (watch_receiver_addr Scenarios.conv_ip Scenarios.req_addr
           (fun k => if Nat.eqb k 0 then Err Scenarios.unavailable else Ok [Item (Scenarios.rsp_of 3)])
           Scenarios.policy_two Scenarios.world0); reflexivity.
Defined.

End WatchExtra.
